(** * Augment: synonym expansion of chatl intents

    A shallow embedding of [src/augment.js] (class [Augment]) and the
    properties of its three methods [getEntity], [getSynonyms] and
    [getIntents].

    Conventions of the embedding:
    - a JavaScript string is a [string]; every character stands for one
      UTF-16 code unit below 256, which covers the white space code points
      TAB, LF, VT, FF, CR, SP and NBSP that [trimLeft] / [trimRight] strip;
    - the tables [intents], [entities], [synonyms], [synonymsValues] and
      [entitiesValues] are finite maps of the objects' own properties; a
      member access [table[name]] also finds what every ordinary object
      inherits ([obj_member]);
    - the object literal [synonymsData], whose enumeration order is
      observable, is an ordered property list ([jsobj]);
    - [throw new Error(msg)] is the right injection of a sum. *)

From Stdlib Require Import Ascii String NArith.
From stdpp Require Import gmap strings list fin_maps.

Local Open Scope string_scope.
Local Open Scope list_scope.

(** ** Strings *)

(** White space as [String.prototype.trimLeft] and [trimRight] see it
    (WhiteSpace and LineTerminator), on code units below 256. *)
Definition isWhiteSpace (c : ascii) : bool :=
  let n := N_of_ascii c in
  ((9 <=? n) && (n <=? 13) || (n =? 32) || (n =? 160))%N.

(** [s.trimLeft()] *)
Fixpoint trimLeft (s : string) : string :=
  match s with
  | EmptyString => EmptyString
  | String c s' => if isWhiteSpace c then trimLeft s' else s
  end.

(** [s === ''] *)
Definition isEmpty (s : string) : bool :=
  match s with
  | EmptyString => true
  | String _ _ => false
  end.

(** [s.trimRight()] *)
Fixpoint trimRight (s : string) : string :=
  match s with
  | EmptyString => EmptyString
  | String c s' =>
      let t := trimRight s' in
      if isWhiteSpace c && isEmpty t then EmptyString else String c t
  end.

(** [s[0] === ' '] ([s[0]] is [undefined] on the empty string) *)
Definition startsWithSpace (s : string) : bool :=
  match s with
  | EmptyString => false
  | String c _ => Ascii.eqb c " "%char
  end.

(** ** Objects with ordered own properties

    [jsobj V] lists the own string-keyed properties of an object in creation
    order, keys pairwise distinct.  Enumeration ([Object.keys], [for in],
    spread, [Object.assign]) visits the array-index keys first, in ascending
    numeric order, then the other keys in creation order. *)

Definition jsobj (V : Type) : Type := list (string * V).

Definition digit (c : ascii) : option N :=
  let n := N_of_ascii c in
  if ((48 <=? n) && (n <=? 57))%N then Some (n - 48)%N else None.

Fixpoint digits (s : string) (acc : N) : option N :=
  match s with
  | EmptyString => Some acc
  | String c s' =>
      match digit c with
      | Some d => digits s' (10 * acc + d)%N
      | None => None
      end
  end.

(** The array index a property key denotes, if any: a canonical decimal
    numeral (no sign, no leading zero) below [2^32 - 1]. *)
Definition arrayIndex (k : string) : option N :=
  match k with
  | EmptyString => None
  | String c rest =>
      if Ascii.eqb c "0"%char
      then (if isEmpty rest then Some 0%N else None)
      else match digits k 0 with
           | Some n => if (n <? 4294967295)%N then Some n else None
           | None => None
           end
  end.

Section JsObject.
Context {V : Type}.

(** [o[k] = v] *)
Fixpoint obj_set (k : string) (v : V) (o : jsobj V) : jsobj V :=
  match o with
  | [] => [(k, v)]
  | (k', v') :: o' =>
      if String.eqb k k' then (k, v) :: o' else (k', v') :: obj_set k v o'
  end.

Fixpoint insertIndexed (n : N) (kv : string * V)
    (l : list (N * (string * V))) : list (N * (string * V)) :=
  match l with
  | [] => [(n, kv)]
  | (m, kv') :: l' =>
      if (n <=? m)%N then (n, kv) :: l
      else (m, kv') :: insertIndexed n kv l'
  end.

(** the array-index properties of [o], in ascending index order *)
Fixpoint indexedEntries (o : jsobj V) : list (N * (string * V)) :=
  match o with
  | [] => []
  | kv :: o' =>
      match arrayIndex kv.1 with
      | Some n => insertIndexed n kv (indexedEntries o')
      | None => indexedEntries o'
      end
  end.

(** the other properties of [o], in creation order *)
Definition namedEntries (o : jsobj V) : jsobj V :=
  List.filter (fun kv => negb (bool_decide (is_Some (arrayIndex kv.1)))) o.

(** [Object.entries(o)] *)
Definition obj_entries (o : jsobj V) : list (string * V) :=
  List.map snd (indexedEntries o) ++ namedEntries o.

(** [Object.values(o)] *)
Definition obj_values (o : jsobj V) : list V :=
  List.map snd (obj_entries o).

(** [Object.assign(o, x)] *)
Definition obj_assign (o x : jsobj V) : jsobj V :=
  fold_left (fun acc kv => obj_set kv.1 kv.2 acc) (obj_entries x) o.
End JsObject.

(** The members an ordinary object inherits from [Object.prototype]. *)
Definition inheritedMembers : list string :=
  ["constructor"; "__defineGetter__"; "__defineSetter__"; "hasOwnProperty";
   "__lookupGetter__"; "__lookupSetter__"; "isPrototypeOf";
   "propertyIsEnumerable"; "toString"; "valueOf"; "__proto__";
   "toLocaleString"].

(** What a member access finds: a property of the object itself, or a
    member it inherits, a function or ([__proto__]) the prototype object. *)
Inductive property (A : Type) : Type :=
  | OwnProperty (a : A)
  | InheritedProperty (name : string).
Arguments OwnProperty {A} a.
Arguments InheritedProperty {A} name.

(** [table[name]] on an ordinary object: the own property if there is one,
    else the inherited member, else [undefined]. *)
Definition obj_member {A} (table : gmap string A) (name : string)
    : option (property A) :=
  match table !! name with
  | Some a => Some (OwnProperty a)
  | None =>
      if bool_decide (name ∈ inheritedMembers)
      then Some (InheritedProperty name) else None
  end.

(** ** Data model *)

(** Opaque parsed values: raw entity definitions and the fields of an intent
    other than [data]. *)
#[warnings="-register-all"]
Inductive json : Type :=
  | JNull
  | JBool (b : bool)
  | JNum (n : Z)
  | JStr (s : string)
  | JArr (l : list json)
  | JObj (l : list (string * json)).

(** A sentence part [{ type, value, optional }]; an absent [optional] reads
    as [false]. *)
Record Part : Type := mkPart {
  type : string;
  value : string;
  optional : bool;
}.

Definition Sentence : Type := list Part.

(** [{ type: 'text', value }] *)
Definition text (v : string) : Part :=
  {| type := "text"; value := v; optional := false |}.

(** [{ type: 'synonym', value: entity, optional }] *)
Definition synonym (entity : string) (opt : bool) : Part :=
  {| type := "synonym"; value := entity; optional := opt |}.

(** [p.value = v] *)
Definition set_value (p : Part) (v : string) : Part :=
  {| type := type p; value := v; optional := optional p |}.

(** An intent [{ data, ...others }]. *)
Record Intent : Type := mkIntent {
  data : list Sentence;
  others : gmap string json;
}.

(** A raw synonym definition [{ data: [{ value }, ...] }]. *)
Record SynonymValue : Type := { syn_value : string }.
Record SynonymDef : Type := { syn_data : list SynonymValue }.

(** Modelled from the spec: entity_value_provider.js is missing; an
    entity-value-provider is "constructed with (entityDefinition,
    injectedSynonymTable)" and is otherwise opaque to this class. *)
Record EntityValueProvider : Type := mkProvider {
  definition : json;
  injected : gmap string (list string);
}.

(** The argument of the constructor; each field may be absent. *)
Record ParsedData : Type := {
  pd_intents : option (gmap string Intent);
  pd_entities : option (gmap string json);
  pd_synonyms : option (gmap string SynonymDef);
}.

(** The fields of an [Augment] instance. *)
Record Augment : Type := {
  intents : gmap string Intent;
  entities : gmap string json;
  synonyms : gmap string SynonymDef;
  synonymsValues : gmap string (list string);
  entitiesValues : gmap string EntityValueProvider;
}.

(** The outcome of a call that may throw. *)
Inductive result (A : Type) : Type :=
  | Return (a : A)
  | Throw (message : string).
Arguments Return {A} a.
Arguments Throw {A} message.

(** ** The helper modules [fp] and [utils] *)

Module fp.
(** Modelled from the spec: fp.js is missing; its combinators are the
    "pipeline-style chained transforms" of the design notes, curried, and
    behave on arrays as [getIntents] relies on: [filter] keeps the
    elements satisfying the predicate, in order. *)
Definition filter {A} (pred : A → bool) (l : list A) : list A :=
  List.filter pred l.

(** Modelled from the spec: fp.js is missing; [map] applies the function
    to every element of an array, in order. *)
Definition map {A B} (f : A → B) (l : list A) : list B :=
  List.map f l.

(** Modelled from the spec: fp.js is missing; [reduce] folds an array from
    the left, handing the callback the accumulator, the element and its
    index; where the source gives no initial accumulator the fold starts
    from the empty array. *)
Fixpoint reduce_from {A B} (f : B → A → nat → B) (i : nat) (acc : B)
    (l : list A) : B :=
  match l with
  | [] => acc
  | x :: l' => reduce_from f (S i) (f acc x i) l'
  end.

Definition reduce {A B} (f : B → A → nat → B) (acc : B) (l : list A) : B :=
  reduce_from f 0 acc l.

(** Modelled from the spec: fp.js is missing; [append(xs)(arr)] with an
    array [xs] yields [arr] followed by the elements of [xs]. *)
Definition append {A} (xs : list A) (arr : list A) : list A :=
  arr ++ xs.

(** Modelled from the spec: fp.js is missing; [append(x)(arr)] with an
    object [x] yields [arr] followed by [x]. *)
Definition push {A} (x : A) (arr : list A) : list A :=
  arr ++ [x].

(** Modelled from the spec: fp.js is missing; [append(x)(obj)] on objects
    yields a copy of [obj] overridden by the properties of [x]. *)
Definition assign {V} (x : jsobj V) (obj : jsobj V) : jsobj V :=
  obj_assign (obj_assign [] obj) x.

(** Modelled from the spec: fp.js is missing; [clone] yields a copy, which
    in a value model is the value itself. *)
Definition clone {A} (x : A) : A := x.
End fp.

Module utils.
(** Modelled from the spec: utils.js is missing; "isSynonymPart(part) ->
    boolean: distinguishes SynonymPart from TextPart", parts being
    discriminated by their [type] field. *)
Definition isSynonym (p : Part) : bool :=
  String.eqb (type p) "synonym".

(** Modelled from the spec: utils.js is missing; the "cartesian product
    over the ordered list of domains, preserving domain order", in
    "odometer order -- last domain cycles fastest". *)
Fixpoint product {A} (domains : list (list A)) : list (list A) :=
  match domains with
  | [] => [[]]
  | d :: ds => flat_map (fun v => List.map (cons v) (product ds)) d
  end.

(** Modelled from the spec: utils.js is missing; "enumerateCombinations
    (orderedDomains) -> ordered tuple[]: cartesian-product generator
    respecting input domain order", "first-declared domain is the
    slowest-varying axis", applied to the values of the object it is
    given. *)
Definition permutate {A} (obj : jsobj (list A)) : list (list A) :=
  product (obj_values obj).
End utils.

(** ** The class [Augment] *)

(** [constructor(parsedData, useSynonymsInEntityValueProvider = false)];
    [fp.instantiate(EntityValueProvider, table)] builds a provider from an
    entity definition and [table]. *)
Definition new_Augment (parsedData : ParsedData)
    (useSynonymsInEntityValueProvider : bool) : Augment :=
  let intents := default ∅ (pd_intents parsedData) in
  let entities := default ∅ (pd_entities parsedData) in
  let synonyms := default ∅ (pd_synonyms parsedData) in
  let synonymsValues :=
    (fun s => fp.map syn_value (syn_data s)) <$> synonyms in
  let entitiesValues :=
    (fun e => mkProvider e
       (if useSynonymsInEntityValueProvider then synonymsValues else ∅))
    <$> entities in
  {| intents := intents; entities := entities; synonyms := synonyms;
     synonymsValues := synonymsValues; entitiesValues := entitiesValues |}.

(** [getEntity(name)]: [this.entitiesValues[name]] is a member access, and
    what it finds, a provider or an inherited member, is truthy; the test
    [!provider] holds only when it finds nothing. *)
Definition getEntity (this : Augment) (name : string)
    : result (property EntityValueProvider) :=
  match obj_member (entitiesValues this) name with
  | Some provider => Return provider
  | None => Throw ("Could not find an entity with the name: " +:+ name)
  end.

(** [getSynonyms(entity)]: [this.synonymsValues[entity] || []] where it
    yields an array of strings, that is for an entity with an entry of its
    own and for an entity that is none of [inheritedMembers].  For an
    inherited name without entry the source yields the inherited member,
    and [getIntents] would put it in the domain as it is: sentences naming
    such an entity are outside this model, whose tuples and parts hold
    strings. *)
Definition getSynonyms (this : Augment) (entity : string) : list string :=
  default [] (synonymsValues this !! entity).

(** [(c.optional ? [''] : []).concat(this.getSynonyms(c.value))] *)
Definition domain (this : Augment) (c : Part) : list string :=
  (if optional c then [""] else []) ++ getSynonyms this (value c).

(** The domain table of a sentence: [fp.reduce((p, c) => fp.append({
    [c.value]: (c.optional ? [''] : []).concat(this.getSynonyms(c.value)) })
    (p), {})(sentenceSynonyms)]. *)
Definition synonymsData (this : Augment) (sentenceSynonyms : list Part)
    : jsobj (list string) :=
  fp.reduce (fun p c _ => fp.assign [(value c, domain this c)] p)
            [] sentenceSynonyms.

(** One step of the substitution; the state pairs the captured counter
    [idx] with the accumulated parts. *)
Definition substitute_step (permutation : list string)
    (st : nat * list Part) (c : Part) : nat * list Part :=
  let '(idx, p) := st in
  if negb (utils.isSynonym c) then (idx, fp.push (fp.clone c) p)
  else
    (* const value = permutation[idx++]; if (value) ... *)
    match permutation !! idx with
    | Some v =>
        if isEmpty v then (S idx, p) else (S idx, fp.push (text v) p)
    | None => (S idx, p)
    end.

(** [parts]: the sentence with its synonyms replaced by the values of
    [permutation]. *)
Definition substitute (sentence : Sentence) (permutation : list string)
    : list Part :=
  snd (fp.reduce (fun st c _ => substitute_step permutation st c)
                 (0, []) sentence).

(** [parts[i + 1].value[0] === ' '], read only for a non-final [i]. *)
Definition nextStartsWithSpace (parts : list Part) (i : nat) : bool :=
  match parts !! (i + 1) with
  | Some q => startsWithSpace (value q)
  | None => false
  end.

(** The callback of the white space pass. *)
Definition strip_step (parts : list Part) (f : list Part) (part : Part)
    (i : nat) : list Part :=
  let p := fp.clone part in
  let p := if (i =? 0)%nat then set_value p (trimLeft (value p)) else p in
  let p :=
    if (i =? length parts - 1)%nat || nextStartsWithSpace parts i
    then set_value p (trimRight (value p)) else p in
  if isEmpty (value p) then f else fp.push p f.

(** [strippedParts] *)
Definition strippedParts (parts : list Part) : list Part :=
  fp.reduce (strip_step parts) [] parts.

(** The callback reducing the sentences of an intent. *)
Definition reduce_sentence (this : Augment) (acc : list Sentence)
    (sentence : Sentence) : list Sentence :=
  let sentenceSynonyms := fp.filter utils.isSynonym sentence in
  if (length sentenceSynonyms =? 0)%nat then fp.append [sentence] acc
  else
    let synonymsData := synonymsData this sentenceSynonyms in
    fp.append
      (fp.map (fun permutation => strippedParts (substitute sentence permutation))
              (utils.permutate synonymsData))
      acc.

(** The variants one sentence contributes. *)
Definition expand (this : Augment) (sentence : Sentence) : list Sentence :=
  reduce_sentence this [] sentence.

(** [processIntentData]: [fp.append({ data: ... })(intentData)] copies the
    intent and overrides its [data]. *)
Definition processIntentData (this : Augment) (intentData : Intent) : Intent :=
  {| data := fp.reduce (fun acc sentence _ => reduce_sentence this acc sentence)
                       [] (data intentData);
     others := others intentData |}.

(** [getIntents()]: [fp.map(processIntentData)(this.intents)], on an
    object, maps the values and keeps the keys. *)
Definition getIntents (this : Augment) : gmap string Intent :=
  processIntentData this <$> intents this.

(** The text a sentence stands for: the concatenation of its parts. *)
Definition render (s : Sentence) : string :=
  fold_right String.append "" (List.map value s).

(** ** The same passes, by recursion on the parts *)

(** A part survives the pass unless its text is empty. *)
Definition keep (p : Part) : list Part :=
  if isEmpty (value p) then [] else [p].

(** Leading white space goes from the first part only. *)
Definition leadTrim (first : bool) (v : string) : string :=
  if first then trimLeft v else v.

(** Trailing white space goes from the last part, and from a part followed
    by a part whose text begins with the space character. *)
Definition seamTrim (next : option Part) (v : string) : string :=
  match next with
  | None => trimRight v
  | Some q => if startsWithSpace (value q) then trimRight v else v
  end.

(** The pass as the specification words it (step 6 of the algorithm), by
    recursion on the parts; [after] is the part that follows the list, if
    any. *)
Fixpoint normalized (first : bool) (parts : list Part) (after : option Part)
    : list Part :=
  match parts with
  | [] => []
  | p :: rest =>
      keep (set_value p
              (seamTrim (match rest with [] => after | q :: _ => Some q end)
                        (leadTrim first (value p))))
      ++ normalized false rest after
  end.

(** The substitution by recursion on the sentence, from counter [idx]. *)
Fixpoint substitute_from (idx : nat) (sentence : Sentence)
    (permutation : list string) : list Part :=
  match sentence with
  | [] => []
  | c :: rest =>
      if utils.isSynonym c then
        match permutation !! idx with
        | Some v => if isEmpty v then [] else [text v]
        | None => []
        end ++ substitute_from (S idx) rest permutation
      else c :: substitute_from idx rest permutation
  end.



(** ** The scenarios of the specification *)

(** intents = { greet: { data: [["Hello ", ~name?, " there"]] } },
    synonyms = { name: { data: [{ value: "Alice" }, { value: "Bob" }] } } *)
Definition greetData : ParsedData :=
  {| pd_intents :=
       Some {[ "greet" :=
                 mkIntent [[text "Hello "; synonym "name" true; text " there"]] ∅ ]};
     pd_entities := None;
     pd_synonyms :=
       Some {[ "name" :=
                 {| syn_data := [ {| syn_value := "Alice" |};
                                  {| syn_value := "Bob" |} ] |} ]} |}.

(** ["Hello ", ~greeting?, " world"] *)
Definition helloWorld : Sentence :=
  [text "Hello "; synonym "greeting" true; text " world"].

(** No intents, no synonyms, one entity [city]. *)
Definition cityData : ParsedData :=
  {| pd_intents := None;
     pd_entities := Some {[ "city" := JStr "towns" ]};
     pd_synonyms := None |}.

(** One required synonym [city] whose configured values include the empty
    string. *)
Definition blankCityData : ParsedData :=
  {| pd_intents := None;
     pd_entities := None;
     pd_synonyms :=
       Some {[ "city" :=
                 {| syn_data := [ {| syn_value := "" |};
                                  {| syn_value := "NYC" |} ] |} ]} |}.

(** No intents, no entities, no synonyms. *)
Definition emptyData : ParsedData :=
  {| pd_intents := None; pd_entities := None; pd_synonyms := None |}.



(** ** Folding lemmas *)

Lemma reduce_from_no_index {A B} (g : B → A → B) l i acc :
  fp.reduce_from (fun b a _ => g b a) i acc l = fold_left g l acc.
Proof.
  revert i acc. induction l as [|x l IH]; intros i acc; simpl; [done|].
  apply IH.
Qed.




Lemma filter_isSynonym_nil (sentence : Sentence) :
  Forall (fun p => utils.isSynonym p = false) sentence →
  fp.filter utils.isSynonym sentence = [].
Proof.
  unfold fp.filter. induction 1 as [|p l Hp _ IH]; simpl; [done|].
  by rewrite Hp.
Qed.

(** ** Objects: enumeration and assignment *)

Lemma obj_entries_singleton {V} (k : string) (v : V) :
  obj_entries [(k, v)] = [(k, v)].
Proof.
  unfold obj_entries, namedEntries. simpl.
  by destruct (arrayIndex k).
Qed.










Lemma assign_singleton {V} (k : string) (v : V) (obj : jsobj V) :
  fp.assign [(k, v)] obj = obj_set k v (obj_assign [] obj).
Proof.
  unfold fp.assign. unfold obj_assign at 1.
  by rewrite obj_entries_singleton.
Qed.

(** ** The white space pass, part by part *)

Lemma set_value_id (p : Part) : set_value p (value p) = p.
Proof. by destruct p. Qed.

Lemma strip_step_keep (done : list Part) (p : Part) (rest f : list Part) :
  strip_step (done ++ p :: rest) f p (length done) =
  f ++ keep (set_value p
               (seamTrim (head rest)
                         (leadTrim (bool_decide (done = [])) (value p)))).
Proof.
  unfold strip_step, fp.clone, fp.push, nextStartsWithSpace, keep.
  rewrite length_app. simpl length.
  replace (length done + S (length rest) - 1) with (length done + length rest)
    by lia.
  replace (length done + 1) with (S (length done)) by lia.
  rewrite lookup_app_r by lia.
  replace (S (length done) - length done) with 1 by lia.
  assert (Hfirst : (length done =? 0)%nat = bool_decide (done = [])).
  { by destruct done. }
  rewrite Hfirst. clear Hfirst.
  destruct rest as [|q rest]; simpl.
  - rewrite Nat.add_0_r, Nat.eqb_refl. simpl.
    destruct (bool_decide (done = [])); simpl;
      destruct (isEmpty _); by rewrite ?app_nil_r.
  - replace (length done =? length done + S (length rest))%nat with false
      by (symmetry; apply Nat.eqb_neq; lia).
    simpl.
    destruct (bool_decide (done = [])); simpl;
      destruct (startsWithSpace (value q)); simpl;
      rewrite ?set_value_id; destruct (isEmpty _); by rewrite ?app_nil_r.
Qed.

Lemma strip_reduce_normalized (done todo f : list Part) :
  fp.reduce_from (strip_step (done ++ todo)) (length done) f todo =
  f ++ normalized (bool_decide (done = [])) todo None.
Proof.
  revert done f. induction todo as [|p rest IH]; intros done f; simpl.
  - by rewrite app_nil_r.
  - rewrite strip_step_keep.
    replace (done ++ p :: rest) with ((done ++ [p]) ++ rest)
      by (by rewrite <- app_assoc).
    replace (S (length done)) with (length (done ++ [p]))
      by (rewrite length_app; simpl; lia).
    rewrite IH.
    rewrite (bool_decide_eq_false_2 (done ++ [p] = []))
      by (by destruct done).
    rewrite <- app_assoc. by destruct rest.
Qed.

(** The indexed fold of the source computes the pass of the
    specification. *)
Lemma strippedParts_normalized (parts : list Part) :
  strippedParts parts = normalized true parts None.
Proof.
  unfold strippedParts, fp.reduce.
  exact (strip_reduce_normalized [] parts []).
Qed.

Lemma normalized_app (first : bool) (l1 l2 : list Part) (after : option Part) :
  normalized first (l1 ++ l2) after =
  normalized first l1 (match l2 with [] => after | q :: _ => Some q end) ++
  normalized (first && bool_decide (l1 = [])) l2 after.
Proof.
  revert first. induction l1 as [|p l1 IH]; intros first; simpl.
  - by rewrite andb_true_r.
  - rewrite IH, <- app_assoc, andb_false_r. simpl.
    do 2 f_equal. destruct l1; simpl; [|done].
    by destruct l2.
Qed.

(** ** The substitution, part by part *)

Lemma fold_substitute_step (permutation : list string) (sentence : Sentence)
    (idx : nat) (p : list Part) :
  fold_left (substitute_step permutation) sentence (idx, p) =
  (idx + length (fp.filter utils.isSynonym sentence),
   p ++ substitute_from idx sentence permutation).
Proof.
  revert idx p. induction sentence as [|c rest IH]; intros idx p; simpl.
  - by rewrite Nat.add_0_r, app_nil_r.
  - unfold fp.push, fp.clone.
    destruct (utils.isSynonym c); simpl.
    + destruct (permutation !! idx) as [v|]; [destruct (isEmpty v)|];
        rewrite IH; simpl; f_equal; try lia.
      by rewrite <- app_assoc.
    + rewrite IH. f_equal. by rewrite <- app_assoc.
Qed.

Lemma substitute_structural (sentence : Sentence) (permutation : list string) :
  substitute sentence permutation = substitute_from 0 sentence permutation.
Proof.
  unfold substitute, fp.reduce.
  rewrite (reduce_from_no_index (substitute_step permutation)).
  by rewrite fold_substitute_step.
Qed.

Lemma substitute_from_app (idx : nat) (l1 l2 : Sentence)
    (permutation : list string) :
  substitute_from idx (l1 ++ l2) permutation =
  substitute_from idx l1 permutation ++
  substitute_from (idx + length (fp.filter utils.isSynonym l1)) l2 permutation.
Proof.
  revert idx. induction l1 as [|c l1 IH]; intros idx; simpl.
  - by rewrite Nat.add_0_r.
  - destruct (utils.isSynonym c); simpl; rewrite IH.
    + rewrite <- app_assoc. do 3 f_equal. lia.
    + done.
Qed.

Lemma substitute_from_delete_before (idx n : nat) (sentence : Sentence)
    (permutation : list string) :
  (idx + length (fp.filter utils.isSynonym sentence) ≤ n)%nat →
  substitute_from idx sentence (delete n permutation) =
  substitute_from idx sentence permutation.
Proof.
  revert idx. induction sentence as [|c rest IH]; intros idx Hle; simpl in *;
    [done|].
  destruct (utils.isSynonym c); simpl in *.
  - rewrite list_lookup_delete_lt by lia. rewrite IH by lia. done.
  - by rewrite IH.
Qed.

Lemma substitute_from_delete_after (idx n : nat) (sentence : Sentence)
    (permutation : list string) :
  (n ≤ idx)%nat →
  substitute_from idx sentence (delete n permutation) =
  substitute_from (S idx) sentence permutation.
Proof.
  revert idx. induction sentence as [|c rest IH]; intros idx Hle; simpl;
    [done|].
  destruct (utils.isSynonym c).
  - rewrite list_lookup_delete_ge by lia. rewrite IH by lia. done.
  - by rewrite IH.
Qed.

(** ** The domain table and the number of variants *)

Lemma synonymsData_fold (this : Augment) (sentenceSynonyms : list Part) :
  synonymsData this sentenceSynonyms =
  fold_left (fun p c => obj_set (value c) (domain this c) (obj_assign [] p))
            sentenceSynonyms [].
Proof.
  unfold synonymsData, fp.reduce.
  rewrite (reduce_from_no_index
             (fun p c => fp.assign [(value c, domain this c)] p)).
  assert (Hacc : ∀ o : jsobj (list string),
    fold_left (fun p c => fp.assign [(value c, domain this c)] p)
              sentenceSynonyms o =
    fold_left (fun p c => obj_set (value c) (domain this c) (obj_assign [] p))
              sentenceSynonyms o).
  { induction sentenceSynonyms as [|c l IH]; intros o; simpl; [done|].
    by rewrite assign_singleton, IH. }
  apply Hacc.
Qed.

Lemma synonymsData_twice (this : Augment) (c1 c2 : Part) :
  value c1 = value c2 →
  synonymsData this [c1; c2] = [(value c2, domain this c2)].
Proof.
  intros Heq. rewrite synonymsData_fold. simpl.
  unfold obj_assign. rewrite obj_entries_singleton. simpl.
  rewrite Heq. by rewrite String.eqb_refl.
Qed.

Lemma synonymsData_once (this : Augment) (c : Part) :
  synonymsData this [c] = [(value c, domain this c)].
Proof. by rewrite synonymsData_fold. Qed.











(** ** Looking up an entity *)

Lemma getEntity_entry (this : Augment) (name : string)
    (provider : EntityValueProvider) :
  entitiesValues this !! name = Some provider →
  getEntity this name = Return (OwnProperty provider).
Proof. intros Hsome. unfold getEntity, obj_member. by rewrite Hsome. Qed.

Lemma getEntity_not_found (this : Augment) (name : string) :
  entitiesValues this !! name = None →
  name ∉ inheritedMembers →
  getEntity this name =
    Throw ("Could not find an entity with the name: " +:+ name).
Proof.
  intros Hnone Hplain. unfold getEntity, obj_member.
  by rewrite Hnone, bool_decide_eq_false_2.
Qed.

(** ** The claims of the specification *)

(** C1 (as amended): in the greet scenario [getIntents()] returns for
    "greet" exactly three sentences, rendering to "Hello there",
    "Hello Alice there", "Hello Bob there", in that order: the domain of an
    optional synonym starts with the empty string, so the variant without
    the synonym comes first. *)
Theorem greet_scenario_variants (useSynonyms : bool) :
  ∃ intent,
    getIntents (new_Augment greetData useSynonyms) !! "greet" = Some intent ∧
    List.map render (data intent) =
      ["Hello there"; "Hello Alice there"; "Hello Bob there"].
Proof.
  eexists. split.
  - unfold getIntents. rewrite lookup_fmap.
    destruct useSynonyms; vm_compute; reflexivity.
  - vm_compute. reflexivity.
Qed.

(** C1 (as stated) fails: the three sentences of "greet" do not come in the
    order "Hello Alice there", "Hello Bob there", "Hello there". *)
Lemma greet_scenario_not_claimed_order :
  ¬ ∃ intent,
      getIntents (new_Augment greetData false) !! "greet" = Some intent ∧
      List.map render (data intent) =
        ["Hello Alice there"; "Hello Bob there"; "Hello there"].
Proof.
  intros (intent & Hlookup & Hrender).
  vm_compute in Hlookup. injection Hlookup as <-.
  vm_compute in Hrender. discriminate Hrender.
Qed.

(** C2 fails on the code: the domain table is keyed by entity name, so
    a sentence naming one entity twice has one slot; it expands exactly as
    the sentence naming it once (with the optionality of the last
    occurrence), and the second occurrence never receives a value.  With
    [name] standing for "Alice" and "Bob", "~name ~name" yields "Alice" and
    "Bob", not the four combinations. *)
Theorem repeated_entity_shares_slot (this : Augment) (entity : string)
    (opt1 opt2 : bool) :
  expand this [synonym entity opt1; synonym entity opt2] =
    expand this [synonym entity opt2]
  ∧ List.map render
      (expand (new_Augment greetData false)
         [synonym "name" false; text " "; synonym "name" false]) =
    ["Alice"; "Bob"].
Proof.
  split; [|reflexivity].
  unfold expand, reduce_sentence, utils.permutate, obj_values. simpl.
  rewrite synonymsData_twice by done.
  rewrite synonymsData_once.
  rewrite obj_entries_singleton. simpl.
  unfold fp.map. apply List.map_ext_in. intros permutation Hin.
  apply in_flat_map in Hin as (v & _ & [<- | []]).
  by rewrite !substitute_structural.
Qed.

(** C3 fails on the code: "~name ~name?" has domains of sizes 2 and 3, and
    expands to 3 variants, not 6. *)
Theorem repeated_entity_variant_count :
  length (fp.map (domain (new_Augment greetData false))
            [synonym "name" false; synonym "name" true]) = 2 ∧
  List.map length
    (fp.map (domain (new_Augment greetData false))
       [synonym "name" false; synonym "name" true]) = [2; 3] ∧
  length (expand (new_Augment greetData false)
            [synonym "name" false; text " "; synonym "name" true]) = 3.
Proof. repeat split. Qed.

(** C4: for ["Hello ", ~greeting?, " world"], whatever the synonyms of
    [greeting] are, the variant in which the synonym resolves to the empty
    string is the first one, it is ["Hello"; " world"], and its text is
    exactly "Hello world". *)
Theorem hello_world_whitespace (this : Augment) :
  strippedParts (substitute helloWorld [""]) = [text "Hello"; text " world"] ∧
  render (strippedParts (substitute helloWorld [""])) = "Hello world" ∧
  head (expand this helloWorld) = Some (strippedParts (substitute helloWorld [""])).
Proof.
  split; [reflexivity|]. split; [reflexivity|].
  reflexivity.
Qed.

(** C5: a sentence without synonym parts expands to exactly one variant,
    the sentence itself. *)
Theorem expand_no_synonym (this : Augment) (sentence : Sentence) :
  Forall (fun p => utils.isSynonym p = false) sentence →
  expand this sentence = [sentence].
Proof.
  intros Hno. unfold expand, reduce_sentence.
  by rewrite (filter_isSynonym_nil sentence Hno).
Qed.

Lemma expand_no_synonym_witness :
  Forall (fun p => utils.isSynonym p = false) [text " Hello "; text " world "] ∧
  expand (new_Augment greetData false) [text " Hello "; text " world "] =
    [[text " Hello "; text " world "]].
Proof.
  assert (H : Forall (fun p => utils.isSynonym p = false)
                     [text " Hello "; text " world "])
    by (repeat constructor).
  split; [exact H|].
  exact (expand_no_synonym (new_Augment greetData false) _ H).
Defined.

(** C6 fails on the code: with no value configured for [city], the sentence
    "~city ~city?" contains a required synonym with an empty domain, yet it
    contributes one variant, the empty sentence. *)
Theorem required_then_optional_contributes :
  domain (new_Augment emptyData false) (synonym "city" false) = [] ∧
  expand (new_Augment emptyData false)
    [synonym "city" false; synonym "city" true] = [[]].
Proof. split; reflexivity. Qed.

(** C7 fails on the code: [this.entitiesValues[name]] also finds the
    members every object inherits, and they are truthy.  For a name such as
    "toString", without entry in the provider table, [getEntity] returns
    the inherited member: it does not throw, and what it returns is no
    entity value provider. *)
Theorem getEntity_inherited_member (this : Augment) (name : string) :
  entitiesValues this !! name = None →
  name ∈ inheritedMembers →
  getEntity this name = Return (InheritedProperty name).
Proof.
  intros Hnone Hinherited. unfold getEntity, obj_member.
  by rewrite Hnone, bool_decide_eq_true_2.
Qed.

Lemma getEntity_inherited_member_witness :
  entitiesValues (new_Augment cityData false) !! "toString" = None ∧
  "toString" ∈ inheritedMembers ∧
  getEntity (new_Augment cityData false) "toString" =
    Return (InheritedProperty "toString").
Proof.
  assert (Hnone : entitiesValues (new_Augment cityData false) !! "toString"
                  = None) by reflexivity.
  assert (Hinherited : "toString" ∈ inheritedMembers)
    by (apply (bool_decide_unpack _); reflexivity).
  split; [exact Hnone|]. split; [exact Hinherited|].
  exact (getEntity_inherited_member _ _ Hnone Hinherited).
Defined.


(** C9: in the white space pass a part [p] followed by a part [q] is
    right-trimmed exactly when the text of [q] begins with the space
    character U+0020, whatever surrounds them; before a part that begins
    with another white space character, such as a tab, the trailing white
    space of [p] stays. *)
Theorem seam_trim_only_before_space (pre : list Part) (p q : Part)
    (post : list Part) :
  strippedParts (pre ++ p :: q :: post) =
    normalized true pre (Some p) ++
    keep (set_value p
            (let v := leadTrim (bool_decide (pre = [])) (value p) in
             if startsWithSpace (value q) then trimRight v else v)) ++
    normalized false (q :: post) None
  ∧ strippedParts [text "a "; text (String "009"%char "b"); text "c "; text " d"] =
      [text "a "; text (String "009"%char "b"); text "c"; text " d"].
Proof.
  split; [|reflexivity].
  rewrite strippedParts_normalized, normalized_app.
  reflexivity.
Qed.

(** C10: a synonym part, optional or not, whose value in the permutation is
    the empty string leaves no part in the candidate: the candidate is the
    one of the sentence without that part, for the permutation without that
    value.  So a required synonym [city] with configured values "" and
    "NYC" yields one variant without the part and one with "NYC". *)
Theorem empty_value_omits_part (pre : Sentence) (c : Part) (post : Sentence)
    (permutation : list string) :
  utils.isSynonym c = true →
  permutation !! length (fp.filter utils.isSynonym pre) = Some "" →
  substitute (pre ++ c :: post) permutation =
    substitute (pre ++ post)
      (delete (length (fp.filter utils.isSynonym pre)) permutation)
  ∧ expand (new_Augment blankCityData false) [text "in "; synonym "city" false] =
      [[text "in"]; [text "in "; text "NYC"]].
Proof.
  intros Hsyn Hvalue. split; [|reflexivity].
  rewrite !substitute_structural, !substitute_from_app. simpl.
  rewrite Hsyn, Hvalue. simpl.
  rewrite substitute_from_delete_before by lia.
  f_equal.
  by rewrite substitute_from_delete_after by lia.
Qed.

Lemma empty_value_omits_part_witness :
  utils.isSynonym (synonym "b" false) = true ∧
  ["x"; ""; "y"] !! length (fp.filter utils.isSynonym [synonym "a" false; text " "])
    = Some "" ∧
  substitute ([synonym "a" false; text " "] ++
              synonym "b" false :: [text " "; synonym "c" true])
             ["x"; ""; "y"] =
    substitute ([synonym "a" false; text " "] ++ [text " "; synonym "c" true])
               ["x"; "y"].
Proof.
  assert (Hsyn : utils.isSynonym (synonym "b" false) = true) by reflexivity.
  assert (Hvalue : ["x"; ""; "y"] !!
            length (fp.filter utils.isSynonym [synonym "a" false; text " "])
            = Some "") by reflexivity.
  split; [exact Hsyn|]. split; [exact Hvalue|].
  exact (proj1 (empty_value_omits_part [synonym "a" false; text " "]
                  (synonym "b" false) [text " "; synonym "c" true]
                  ["x"; ""; "y"] Hsyn Hvalue)).
Defined.


(** ** What the expansion depends on *)





(** ** What a variant is made of *)















(** ** One synonym, and synonyms of distinct entities *)







(** ** The text of a variant *)

Lemma trimLeft_ink (s : string) :
  trimLeft s = "" ∨
  ∃ c t, trimLeft s = String c t ∧ isWhiteSpace c = false.
Proof.
  induction s as [|c s IH]; simpl; [by left|].
  destruct (isWhiteSpace c) eqn:Hc; [done|].
  right. by exists c, s.
Qed.

Lemma trimLeft_idem (s : string) : trimLeft (trimLeft s) = trimLeft s.
Proof.
  destruct (trimLeft_ink s) as [->|(c & t & -> & Hc)]; [done|].
  simpl. by rewrite Hc.
Qed.

Lemma trimRight_idem (s : string) : trimRight (trimRight s) = trimRight s.
Proof.
  induction s as [|c s IH]; simpl; [done|].
  destruct (isWhiteSpace c && isEmpty (trimRight s)) eqn:Hdrop; [done|].
  simpl. by rewrite IH, Hdrop.
Qed.

Lemma isEmpty_trimRight (s : string) :
  isEmpty (trimRight s) = isEmpty (trimLeft s).
Proof.
  induction s as [|c s IH]; simpl; [done|].
  destruct (isWhiteSpace c); simpl; [|done].
  rewrite <- IH. by destruct (isEmpty (trimRight s)).
Qed.

Lemma isEmpty_append (a b : string) :
  isEmpty b = false → isEmpty (a +:+ b) = false.
Proof. by destruct a. Qed.

Lemma trimRight_append (a b : string) :
  isEmpty (trimRight b) = false → trimRight (a +:+ b) = a +:+ trimRight b.
Proof.
  intros Hink. induction a as [|c a IH]; simpl; [done|].
  rewrite IH, isEmpty_append by done. by rewrite andb_false_r.
Qed.

Lemma append_assoc (a b c : string) : (a +:+ b) +:+ c = a +:+ b +:+ c.
Proof.
  induction a as [|x a IH]; [done|].
  change (String x ((a +:+ b) +:+ c) = String x (a +:+ b +:+ c)).
  by rewrite IH.
Qed.

Lemma append_empty_r (a : string) : a +:+ "" = a.
Proof.
  induction a as [|x a IH]; [done|].
  change (String x (a +:+ "") = String x a). by rewrite IH.
Qed.

Lemma render_app (l1 l2 : Sentence) :
  render (l1 ++ l2) = render l1 +:+ render l2.
Proof.
  unfold render. induction l1 as [|p l1 IH]; simpl; [done|].
  rewrite IH. by rewrite append_assoc.
Qed.

(** Where the text of the first part and the text of the last part each
    hold a character that is not white space, the text of the result of
    the white space pass neither begins nor ends with white space.  The
    condition matters: the pass trims a part by its position before it
    drops the empty ones, so " " followed by " a" gives " a". *)
Theorem strippedParts_trimmed (parts : list Part) (first final : Part) :
  head parts = Some first →
  last parts = Some final →
  trimLeft (value first) ≠ "" →
  trimRight (value final) ≠ "" →
  (trimLeft (render (strippedParts parts)) = render (strippedParts parts) ∧
   trimRight (render (strippedParts parts)) = render (strippedParts parts)) ∧
  render (strippedParts [text " "; text " a"]) = " a".
Proof.
  intros Hfirst Hfinal Hlead Htrail. split; [|reflexivity].
  rewrite strippedParts_normalized. split.
  - apply head_Some in Hfirst as [rest ->]. simpl.
    destruct (trimLeft_ink (value first)) as [Hnone|(c & t & Hink & Hc)];
      [done|].
    rewrite Hink.
    assert (Hseam : ∃ t', seamTrim (match rest with
                                    | [] => None
                                    | q :: _ => Some q
                                    end) (String c t) = String c t').
    { unfold seamTrim.
      destruct rest as [|q rest]; [|destruct (startsWithSpace (value q))];
        simpl; rewrite ?Hc; simpl; eauto. }
    destruct Hseam as [t' ->]. unfold keep. simpl.
    unfold render. simpl. by rewrite Hc.
  - apply last_Some in Hfinal as [pre ->].
    rewrite normalized_app. simpl.
    set (v := leadTrim (bool_decide (pre = [])) (value final)).
    assert (Hink : isEmpty (trimRight v) = false).
    { unfold v, leadTrim. destruct (bool_decide (pre = [])).
      - rewrite isEmpty_trimRight, trimLeft_idem, <- isEmpty_trimRight.
        by destruct (trimRight (value final)).
      - by destruct (trimRight (value final)). }
    unfold keep. simpl. rewrite Hink, app_nil_r, render_app.
    unfold render at 2 4. simpl. rewrite append_empty_r.
    rewrite trimRight_append by (by rewrite trimRight_idem).
    by rewrite trimRight_idem.
Qed.

(** The substitution keeps every part that is not a synonym, as it is and
    in its place among the others. *)
Theorem substitute_keeps_other_parts (sentence : Sentence)
    (permutation : list string) :
  List.filter (fun p => negb (utils.isSynonym p)) sentence
    `sublist_of` substitute sentence permutation.
Proof.
  rewrite substitute_structural. generalize 0.
  induction sentence as [|c rest IH]; intros idx; simpl; [constructor|].
  destruct (utils.isSynonym c); simpl.
  - apply sublist_inserts_l, IH.
  - apply sublist_skip, IH.
Qed.

(** ** Synonym parts naming one entity more than once *)




(** ** Instances *)








Lemma strippedParts_trimmed_witness :
  head [text " Hello "; text " "; text " world "] = Some (text " Hello ") ∧
  last [text " Hello "; text " "; text " world "] = Some (text " world ") ∧
  trimLeft (value (text " Hello ")) ≠ "" ∧
  trimRight (value (text " world ")) ≠ "" ∧
  trimLeft (render (strippedParts [text " Hello "; text " "; text " world "])) =
    render (strippedParts [text " Hello "; text " "; text " world "]) ∧
  trimRight (render (strippedParts [text " Hello "; text " "; text " world "])) =
    render (strippedParts [text " Hello "; text " "; text " world "]).
Proof.
  assert (Hfirst : head [text " Hello "; text " "; text " world "] =
                   Some (text " Hello ")) by reflexivity.
  assert (Hfinal : last [text " Hello "; text " "; text " world "] =
                   Some (text " world ")) by reflexivity.
  assert (Hlead : trimLeft (value (text " Hello ")) ≠ "") by discriminate.
  assert (Htrail : trimRight (value (text " world ")) ≠ "") by discriminate.
  split; [exact Hfirst|]. split; [exact Hfinal|].
  split; [exact Hlead|]. split; [exact Htrail|].
  exact (proj1 (strippedParts_trimmed _ _ _ Hfirst Hfinal Hlead Htrail)).
Defined.

